(** * Callback scopes for native addons: [napi/src/sys/bindings.cc]

    The two entry points of [bindings.cc] bracket the execution of a
    JavaScript callback: [extras_open_callback_scope] builds a
    [node::CallbackScope] on the heap and hands its address out as an opaque
    handle, [extras_close_callback_scope] deletes it.

    The file is embedded as state-passing code in a small monad with three
    outcomes: a normal return, a fatal abort of the process, and C++
    undefined behaviour.  What the file calls but does not define (the V8
    and Node.js API, [operator new] and [operator delete]) is modelled in
    the modules [V8] and [Node] below, each definition saying what it
    stands for. *)

From stdpp Require Import gmap strings list fin_maps fin_sets.
From Stdlib Require Import ZArith Lia.

Local Open Scope Z_scope.

(** * Definitions *)

(** ** Object representations and [memcpy] *)

Module Repr.

(** Pointers of the ABI are 8 bytes wide (LP64). *)
Definition sizeof_ptr : nat := 8.

Definition ptr_bound : Z := 256 ^ Z.of_nat sizeof_ptr.

Definition is_ptr (p : Z) : bool := (0 <=? p) && (p <? ptr_bound).

(** The little-endian object representation of a pointer value: a list of
    bytes, each a [Z] below 256. *)
Fixpoint to_bytes (n : nat) (p : Z) : list Z :=
  match n with
  | O => []
  | S n' => p `mod` 256 :: to_bytes n' (p `div` 256)
  end.

Fixpoint of_bytes (bs : list Z) : Z :=
  match bs with
  | [] => 0
  | b :: bs' => b + 256 * of_bytes bs'
  end.

(** [memcpy(dst, src, n)]: the first [n] bytes of [dst] are replaced by the
    first [n] bytes of [src]. *)
Definition memcpy (dst src : list Z) (n : nat) : list Z :=
  take n src ++ drop n dst.

End Repr.

(** ** The opaque handle types of [bindings.h] and [node_api.h] *)

(** [napi_value] is a pointer to an opaque struct.  Its object representation
    is copied byte by byte by [V8LocalValueFromJsValue], so it carries the
    width of a pointer. *)
Record napi_value := {
  napi_value_bits : Z;
  napi_value_wf : Repr.is_ptr napi_value_bits = true
}.

(** [napi_async_context] and [extras_callback_scope] are pointers to opaque
    structs too; the code only ever converts them with [reinterpret_cast]. *)
Record napi_async_context := { napi_async_context_ptr : Z }.

Record extras_callback_scope := { extras_callback_scope_ptr : Z }.

(** ** Runtime data *)

(** The values of the script engine, by the cases [ToObject] distinguishes.
    Numbers are kept integral. *)
Inductive Value :=
| VUndefined
| VNull
| VBoolean (b : bool)
| VNumber (n : Z)
| VString (s : string)
| VObject (o : Z).

Definition is_object (v : Value) : bool :=
  match v with VObject _ => true | _ => false end.

(** Heap objects of the script engine: plain objects, and the wrapper objects
    [ToObject] makes around a primitive. *)
Inductive JSObject :=
| PlainObject
| PrimitiveWrapper (v : Value).

(** [v8::Local<T>]: one pointer [val_] to a handle slot, null when empty. *)
Record Local := { val_ : Z }.

Definition IsEmpty (l : Local) : bool := val_ l =? 0.

(** [node::async_context]: the two ids of an asynchronous operation. *)
Record async_context := { async_id : Z; trigger_async_id : Z }.

(** [node::CallbackScope], by the attributes the spec gives it: the execution
    context captured at open time, the resource object and the async
    context. *)
Record CallbackScope := {
  scope_isolate : Z;
  scope_context : Local;
  scope_resource : Local;
  scope_async_context : async_context
}.

(** A frame of the runtime's async-context stack: the scope that pushed it
    and the async context it stands for. *)
Record frame := { frame_scope : Z; frame_async_context : async_context }.

(** What a call does that an observer can count. *)
Inductive event :=
| EvNewObject (o : Z)                             (* a script object is allocated *)
| EvThrow (msg : string)                          (* a script exception is raised *)
| EvNew (p : Z)                                   (* operator new returns p *)
| EvEnter (a : async_context)                     (* entry hooks of a scope *)
| EvStore (addr : Z) (h : extras_callback_scope)  (* a store through a result pointer *)
| EvExit (a : async_context)                      (* exit hooks of a scope *)
| EvDelete (p : Z).                               (* operator delete frees p *)

Record state := {
  current_isolate : Z;                        (* v8::Isolate::GetCurrent(), 0 when none *)
  entered_context : Z;                        (* handle of the entered context, 0 when none *)
  handles : gmap Z Value;                     (* live handle slots *)
  objects : gmap Z JSObject;                  (* script heap *)
  async_contexts : gmap Z async_context;      (* live node::async_context structs *)
  async_stack : list frame;                   (* the runtime's async-context stack *)
  scopes : gmap Z CallbackScope;              (* live heap-allocated scopes *)
  slots : gmap Z extras_callback_scope;       (* caller memory for result handles *)
  trace : list event
}.

Definition set_handles (f : gmap Z Value -> gmap Z Value) (st : state) : state :=
  {| current_isolate := current_isolate st; entered_context := entered_context st;
     handles := f (handles st); objects := objects st;
     async_contexts := async_contexts st; async_stack := async_stack st;
     scopes := scopes st; slots := slots st; trace := trace st |}.

Definition set_objects (f : gmap Z JSObject -> gmap Z JSObject) (st : state) : state :=
  {| current_isolate := current_isolate st; entered_context := entered_context st;
     handles := handles st; objects := f (objects st);
     async_contexts := async_contexts st; async_stack := async_stack st;
     scopes := scopes st; slots := slots st; trace := trace st |}.

Definition set_async_stack (f : list frame -> list frame) (st : state) : state :=
  {| current_isolate := current_isolate st; entered_context := entered_context st;
     handles := handles st; objects := objects st;
     async_contexts := async_contexts st; async_stack := f (async_stack st);
     scopes := scopes st; slots := slots st; trace := trace st |}.

Definition set_scopes (f : gmap Z CallbackScope -> gmap Z CallbackScope) (st : state) : state :=
  {| current_isolate := current_isolate st; entered_context := entered_context st;
     handles := handles st; objects := objects st;
     async_contexts := async_contexts st; async_stack := async_stack st;
     scopes := f (scopes st); slots := slots st; trace := trace st |}.

Definition set_slots (f : gmap Z extras_callback_scope -> gmap Z extras_callback_scope)
    (st : state) : state :=
  {| current_isolate := current_isolate st; entered_context := entered_context st;
     handles := handles st; objects := objects st;
     async_contexts := async_contexts st; async_stack := async_stack st;
     scopes := scopes st; slots := f (slots st); trace := trace st |}.

Definition set_trace (f : list event -> list event) (st : state) : state :=
  {| current_isolate := current_isolate st; entered_context := entered_context st;
     handles := handles st; objects := objects st;
     async_contexts := async_contexts st; async_stack := async_stack st;
     scopes := scopes st; slots := slots st; trace := f (trace st) |}.

(** ** The monad of a native call *)

Inductive outcome (A : Type) :=
| Returned (a : A) (st : state)     (* control is back in the caller *)
| Fatal (msg : string) (st : state) (* the process is aborted, in state st *)
| Undefined.                        (* C++ undefined behaviour *)

Arguments Returned {A} a st.
Arguments Fatal {A} msg st.
Arguments Undefined {A}.

Definition M (A : Type) : Type := state -> outcome A.

Definition ret {A} (a : A) : M A := fun st => Returned a st.

Definition bind {A B} (m : M A) (k : A -> M B) : M B :=
  fun st =>
    match m st with
    | Returned a st' => k a st'
    | Fatal msg st' => Fatal msg st'
    | Undefined => Undefined
    end.

Notation "'let*' x ':=' m 'in' k" := (bind m (fun x => k))
  (at level 10, x name, m at level 100, k at level 200).
Notation "m ';;' k" := (bind m (fun _ => k))
  (at level 100, k at level 200, right associativity).

Definition get : M state := fun st => Returned st st.
Definition modify (f : state -> state) : M unit := fun st => Returned tt (f st).
Definition undefined_behaviour {A} : M A := fun _ => Undefined.
Definition fatal {A} (msg : string) : M A := fun st => Fatal msg st.
Definition emit (e : event) : M unit := modify (set_trace (fun t => t ++ [e])).

(** An address no live object of the given set has, and not the null
    pointer: what an allocator returns. *)
Definition fresh_addr (live : gset Z) : Z := fresh ({[0]} ∪ live).

(** ** The V8 API the file calls *)

Module V8.

(** [v8::Isolate::GetCurrent()]: the isolate of the calling thread, a null
    pointer when the thread has none. *)
Definition Isolate_GetCurrent : M Z :=
  let* st := get in ret (current_isolate st).

(** [isolate->GetCurrentContext()]: a member call, so the isolate pointer
    is dereferenced; the result is an empty handle when no context is
    entered. *)
Definition GetCurrentContext (isolate : Z) : M Local :=
  if isolate =? 0 then undefined_behaviour
  else let* st := get in ret {| val_ := entered_context st |}.

(** [operator->] of a handle: the value in the slot it points to. *)
Definition deref (l : Local) : M Value :=
  let* st := get in
  match handles st !! val_ l with
  | Some v => ret v
  | None => undefined_behaviour
  end.

(** A wrapper object around a primitive, in a new handle slot. *)
Definition new_wrapper (v : Value) : M Local :=
  let* st := get in
  let o := fresh_addr (dom (objects st)) in
  let h := fresh_addr (dom (handles st)) in
  modify (set_objects (insert o (PrimitiveWrapper v)));;
  modify (set_handles (insert h (VObject o)));;
  emit (EvNewObject o);;
  ret {| val_ := h |}.

(** [v8::Value::ToObject(context)], which implements ECMAScript's ToObject:
    an object is returned as it is, in the same handle; [undefined] and
    [null] raise a TypeError and give an empty [MaybeLocal]; any other
    primitive is wrapped in a new object.  Only the last two cases run in
    the context. *)
Definition ToObject (this context : Local) : M (option Local) :=
  let* v := deref this in
  match v with
  | VObject _ => ret (Some this)
  | VUndefined | VNull =>
      if IsEmpty context then undefined_behaviour
      else emit (EvThrow "TypeError");; ret None
  | _ =>
      if IsEmpty context then undefined_behaviour
      else let* l := new_wrapper v in ret (Some l)
  end.

(** [MaybeLocal<T>::ToLocalChecked()]: the handle, or a fatal error of the
    process when there is none. *)
Definition ToLocalChecked (m : option Local) : M Local :=
  match m with
  | Some l => ret l
  | None => fatal "v8::ToLocalChecked: Empty MaybeLocal"
  end.

End V8.

(** ** The Node.js API the file calls *)

Module Node.

(** Modelled from the spec: the constructor of [node::CallbackScope] is
    Node's.  It captures the current execution context of the isolate, the
    resource object and the async context, runs the runtime's entry hooks
    and pushes one frame on the async-context stack.  A current execution
    context that cannot be resolved is a fatal error (sections 4.2 and 7 of
    the spec). *)
Definition CallbackScope_ctor (this : Z) (isolate : Z) (object : Local)
    (asyncContext : async_context) : M CallbackScope :=
  let* context := V8.GetCurrentContext isolate in
  if IsEmpty context then fatal "node::CallbackScope: no current execution context"
  else
    emit (EvEnter asyncContext);;
    modify (set_async_stack
              (cons {| frame_scope := this; frame_async_context := asyncContext |}));;
    ret {| scope_isolate := isolate; scope_context := context;
           scope_resource := object; scope_async_context := asyncContext |}.

(** Modelled from the spec: the destructor of [node::CallbackScope] is
    Node's.  Scopes are closed in strict reverse order of opening: the
    destructor pops the frame its scope pushed, which must be the top one,
    and runs the exit hooks.  Destroying a scope whose frame is not on top
    corrupts the stack: undefined behaviour (sections 3 and 5 of the
    spec). *)
Definition CallbackScope_dtor (this : Z) (s : CallbackScope) : M unit :=
  let* st := get in
  match async_stack st with
  | f :: _ =>
      if frame_scope f =? this then
        modify (set_async_stack tail);;
        emit (EvExit (scope_async_context s))
      else undefined_behaviour
  | [] => undefined_behaviour
  end.

(** [new node::CallbackScope(isolate, object, asyncContext)]: storage at a
    fresh non-null address, then the constructor. *)
Definition new_CallbackScope (isolate : Z) (object : Local)
    (asyncContext : async_context) : M Z :=
  let* st := get in
  let p := fresh_addr (dom (scopes st)) in
  emit (EvNew p);;
  let* s := CallbackScope_ctor p isolate object asyncContext in
  modify (set_scopes (insert p s));;
  ret p.

(** [delete p] for [p : node::CallbackScope*]: nothing for a null pointer;
    otherwise the destructor and the release of the storage, which must be
    that of a live scope. *)
Definition delete_CallbackScope (p : Z) : M unit :=
  if p =? 0 then ret tt
  else
    let* st := get in
    match scopes st !! p with
    | None => undefined_behaviour
    | Some s =>
        CallbackScope_dtor p s;;
        modify (set_scopes (delete p));;
        emit (EvDelete p)
    end.

(** [*p] for [p : node::async_context*]. *)
Definition load_async_context (p : Z) : M async_context :=
  let* st := get in
  match async_contexts st !! p with
  | Some a => ret a
  | None => undefined_behaviour
  end.

End Node.

(** [*result = h] for [result : extras_callback_scope*]. *)
Definition store_result (result : Z) (h : extras_callback_scope) : M unit :=
  let* st := get in
  match slots st !! result with
  | Some _ => modify (set_slots (insert result h));; emit (EvStore result h)
  | None => undefined_behaviour
  end.

(** ** [bindings.cc] *)

Definition Local_to_bytes (l : Local) : list Z :=
  Repr.to_bytes Repr.sizeof_ptr (val_ l).

Definition Local_of_bytes (bs : list Z) : Local :=
  {| val_ := Repr.of_bytes bs |}.

Definition napi_value_to_bytes (v : napi_value) : list Z :=
  Repr.to_bytes Repr.sizeof_ptr (napi_value_bits v).

Definition sizeof_napi_value : nat := Repr.sizeof_ptr.

Definition V8LocalValueFromJsValue (v : napi_value) : Local :=
  let local := {| val_ := 0 |} in
  Local_of_bytes
    (Repr.memcpy (Local_to_bytes local) (napi_value_to_bytes v) sizeof_napi_value).

(** [reinterpret_cast] between pointer types keeps the address. *)
Definition async_context_ptr_of (h : napi_async_context) : Z :=
  napi_async_context_ptr h.

Definition extras_callback_scope_of (p : Z) : extras_callback_scope :=
  {| extras_callback_scope_ptr := p |}.

Definition CallbackScope_ptr_of (h : extras_callback_scope) : Z :=
  extras_callback_scope_ptr h.

Definition extras_open_callback_scope (napi_async_context : napi_async_context)
    (napi_resource_object : napi_value) (result : Z) : M unit :=
  let* isolate := V8.Isolate_GetCurrent in
  let* context := V8.GetCurrentContext isolate in
  let* maybe_object :=
    V8.ToObject (V8LocalValueFromJsValue napi_resource_object) context in
  let* resource_object := V8.ToLocalChecked maybe_object in
  let node_async_context := async_context_ptr_of napi_async_context in
  let* asyncContext := Node.load_async_context node_async_context in
  let* scope := Node.new_CallbackScope isolate resource_object asyncContext in
  store_result result (extras_callback_scope_of scope).

Definition extras_close_callback_scope (callback_scope : extras_callback_scope) : M unit :=
  Node.delete_CallbackScope (CallbackScope_ptr_of callback_scope).

(** ** Preconditions of the entry points *)

(** The runtime is initialised and active on this thread: there is a current
    isolate and it has an entered context. *)
Definition runtime_active (st : state) : Prop :=
  current_isolate st ≠ 0 ∧ entered_context st ≠ 0.

(** The value an external handle currently designates. *)
Definition designates (st : state) (v : napi_value) (x : Value) : Prop :=
  handles st !! napi_value_bits v = Some x.

Definition valid_async_context (st : state) (a : napi_async_context) : Prop :=
  is_Some (async_contexts st !! napi_async_context_ptr a).

Definition valid_slot (st : state) (result : Z) : Prop :=
  is_Some (slots st !! result).

(** The state [extras_open_callback_scope] leaves behind once the resource
    object [l] is resolved: a scope at a fresh address [p], one more frame,
    the handle in the result slot. *)
Definition scope_addr (st : state) : Z := fresh_addr (dom (scopes st)).

Definition scope_made (st : state) (l : Local) (a : async_context) : CallbackScope :=
  {| scope_isolate := current_isolate st;
     scope_context := {| val_ := entered_context st |};
     scope_resource := l;
     scope_async_context := a |}.

Definition open_post (st : state) (l : Local) (a : async_context) (result : Z) : state :=
  let p := scope_addr st in
  set_trace (fun t => t ++ [EvStore result (extras_callback_scope_of p)])
    (set_slots (insert result (extras_callback_scope_of p))
       (set_scopes (insert p (scope_made st l a))
          (set_async_stack (cons {| frame_scope := p; frame_async_context := a |})
             (set_trace (fun t => t ++ [EvEnter a])
                (set_trace (fun t => t ++ [EvNew p]) st))))).

(** The scope at address [p] is the innermost open one: its frame is on top
    of the async-context stack. *)
Definition innermost (st : state) (p : Z) : Prop :=
  frame_scope <$> head (async_stack st) = Some p.

(** The state [extras_close_callback_scope] leaves behind for a live,
    innermost scope [s] at address [p]. *)
Definition close_post (st : state) (p : Z) (s : CallbackScope) : state :=
  set_trace (fun t => t ++ [EvDelete p])
    (set_scopes (delete p)
       (set_trace (fun t => t ++ [EvExit (scope_async_context s)])
          (set_async_stack tail st))).

(** The state after [ToObject] wrapped the primitive [x]. *)
Definition wrapper_addr (st : state) : Z := fresh_addr (dom (objects st)).
Definition wrapper_handle (st : state) : Z := fresh_addr (dom (handles st)).

Definition wrap_post (st : state) (x : Value) : state :=
  set_trace (fun t => t ++ [EvNewObject (wrapper_addr st)])
    (set_handles (insert (wrapper_handle st) (VObject (wrapper_addr st)))
       (set_objects (insert (wrapper_addr st) (PrimitiveWrapper x)) st)).

(** The part of [extras_open_callback_scope] after the resource object is
    resolved (lines 23 and 24). *)
Definition construct_scope (isolate : Z) (resource_object : Local)
    (napi_async_context : napi_async_context) (result : Z) : M unit :=
  let node_async_context := async_context_ptr_of napi_async_context in
  let* asyncContext := Node.load_async_context node_async_context in
  let* scope := Node.new_CallbackScope isolate resource_object asyncContext in
  store_result result (extras_callback_scope_of scope).

(** Line 22: the value-conversion step. *)
Definition resolve_resource (napi_resource_object : napi_value) (context : Local) : M Local :=
  let* maybe_object :=
    V8.ToObject (V8LocalValueFromJsValue napi_resource_object) context in
  V8.ToLocalChecked maybe_object.

Definition nullish (x : Value) : bool :=
  match x with VUndefined | VNull => true | _ => false end.

(** A sequence of calls of the two entry points. *)
Inductive call :=
| Open (a : napi_async_context) (v : napi_value) (result : Z)
| Close (h : extras_callback_scope).

Definition run_call (c : call) : M unit :=
  match c with
  | Open a v result => extras_open_callback_scope a v result
  | Close h => extras_close_callback_scope h
  end.

Fixpoint run (cs : list call) : M unit :=
  match cs with
  | [] => ret tt
  | c :: cs' => run_call c;; run cs'
  end.

(** ** What a call adds to the trace *)

Definition new_events (st st' : state) : list event :=
  drop (length (trace st)) (trace st').

Definition stores_to (addr : Z) (t : list event) : list extras_callback_scope :=
  omap (fun e => match e with
                 | EvStore a h => if decide (a = addr) then Some h else None
                 | _ => None
                 end) t.

Definition allocations (t : list event) : list Z :=
  omap (fun e => match e with EvNew p => Some p | _ => None end) t.

Definition deallocations (t : list event) : list Z :=
  omap (fun e => match e with EvDelete p => Some p | _ => None end) t.

(** A concrete runtime: one isolate with an entered context, a plain object
    [{}] behind handle R1, the number 42 behind R2, [undefined] behind R3, an
    async context A1 and a result slot. *)
Module Example.

Definition st0 : state :=
  {| current_isolate := 1000; entered_context := 2000;
     handles := {[ 4096 := VObject 7; 4104 := VNumber 42; 4112 := VUndefined ]};
     objects := {[ 7 := PlainObject ]};
     async_contexts := {[ 8192 := {| async_id := 5; trigger_async_id := 1 |};
                          8208 := {| async_id := 6; trigger_async_id := 5 |} ]};
     async_stack := [];
     scopes := ∅;
     slots := {[ 12288 := {| extras_callback_scope_ptr := 0 |};
                 12296 := {| extras_callback_scope_ptr := 0 |} ]};
     trace := [] |}.

(** The same process before any isolate exists on the thread. *)
Definition st_no_isolate : state :=
  {| current_isolate := 0; entered_context := 0;
     handles := handles st0; objects := objects st0;
     async_contexts := async_contexts st0; async_stack := [];
     scopes := ∅; slots := slots st0; trace := [] |}.

(** The isolate exists, but no context has been entered. *)
Definition st_no_context : state :=
  {| current_isolate := 1000; entered_context := 0;
     handles := handles st0; objects := objects st0;
     async_contexts := async_contexts st0; async_stack := [];
     scopes := ∅; slots := slots st0; trace := [] |}.

Definition R1 : napi_value := {| napi_value_bits := 4096; napi_value_wf := eq_refl |}.
Definition R2 : napi_value := {| napi_value_bits := 4104; napi_value_wf := eq_refl |}.
Definition R3 : napi_value := {| napi_value_bits := 4112; napi_value_wf := eq_refl |}.
Definition A1 : napi_async_context := {| napi_async_context_ptr := 8192 |}.
Definition A2 : napi_async_context := {| napi_async_context_ptr := 8208 |}.
Definition slot1 : Z := 12288.
Definition slot2 : Z := 12296.
Definition S1 : extras_callback_scope := {| extras_callback_scope_ptr := 1 |}.
Definition S2 : extras_callback_scope := {| extras_callback_scope_ptr := 2 |}.

(** [st0] after [open(A1, R1)] stored [S1] in [slot1]. *)
Definition st1 : state :=
  open_post st0 (V8LocalValueFromJsValue R1)
    {| async_id := 5; trigger_async_id := 1 |} slot1.

(** [st1] after the nested [open(A2, R1)] stored [S2] in [slot2]. *)
Definition st2 : state :=
  open_post st1 (V8LocalValueFromJsValue R1)
    {| async_id := 6; trigger_async_id := 5 |} slot2.

(** [st2] after [close(S2)]: the inner scope is gone, [S1] is innermost
    again. *)
Definition st3 : state :=
  close_post st2 2
    (scope_made st1 (V8LocalValueFromJsValue R1)
       {| async_id := 6; trigger_async_id := 5 |}).

End Example.

(** ** Nested scopes *)

(** A caller that nests scopes: it opens a scope and reads the handle back
    from its result slot, for each triple of async context, resource and
    slot in turn; later it closes a list of handles in the order given. *)
Definition read_slot (result : Z) : M extras_callback_scope :=
  let* st := get in
  match slots st !! result with
  | Some h => ret h
  | None => undefined_behaviour
  end.

Definition open_scope (a : napi_async_context) (v : napi_value) (result : Z) :
    M extras_callback_scope :=
  extras_open_callback_scope a v result;; read_slot result.

Fixpoint open_nested (args : list (napi_async_context * napi_value * Z)) :
    M (list extras_callback_scope) :=
  match args with
  | [] => ret []
  | (a, v, result) :: rest =>
      let* h := open_scope a v result in
      let* hs := open_nested rest in
      ret (h :: hs)
  end.

Fixpoint close_all (hs : list extras_callback_scope) : M unit :=
  match hs with
  | [] => ret tt
  | h :: hs' => extras_close_callback_scope h;; close_all hs'
  end.

(** A valid (AsyncContext, object-typed ResourceHandle) pair with its slot. *)
Definition valid_open_args (st : state)
    (x : napi_async_context * napi_value * Z) : Prop :=
  valid_async_context st x.1.1
  ∧ (∃ o, designates st x.1.2 (VObject o))
  ∧ valid_slot st x.2.

Definition opened_handle (st st1 : state) (h : extras_callback_scope) : Prop :=
  extras_callback_scope_ptr h ≠ 0
  ∧ scopes st !! extras_callback_scope_ptr h = None
  ∧ is_Some (scopes st1 !! extras_callback_scope_ptr h).

(** ** Scope accounting *)

(** What a call adds to the number of live scopes when it returns: an open
    adds one, the close of a non-null handle removes one, the close of a
    null handle nothing. *)
Fixpoint scope_delta (cs : list call) : Z :=
  match cs with
  | [] => 0
  | Open _ _ _ :: cs' => 1 + scope_delta cs'
  | Close h :: cs' =>
      (if extras_callback_scope_ptr h =? 0 then 0 else -1) + scope_delta cs'
  end.

(** * Lemmas *)

(** ** Object representations *)

Lemma length_to_bytes n p : length (Repr.to_bytes n p) = n.
Proof. revert p; induction n as [|n IH]; intros p; simpl; [done | by rewrite IH]. Qed.

Lemma of_to_bytes n p :
  0 <= p < 256 ^ Z.of_nat n -> Repr.of_bytes (Repr.to_bytes n p) = p.
Proof.
  revert p; induction n as [|n IH]; intros p Hp.
  - simpl in *. lia.
  - cbn [Repr.to_bytes Repr.of_bytes].
    rewrite Nat2Z.inj_succ, Z.pow_succ_r in Hp by lia.
    rewrite IH.
    + pose proof (Z.div_mod p 256). lia.
    + split; [apply Z.div_pos; lia | apply Z.div_lt_upper_bound; lia].
Qed.

Lemma memcpy_whole dst src n :
  length src = n -> length dst = n -> Repr.memcpy dst src n = src.
Proof.
  intros Hs Hd. unfold Repr.memcpy.
  rewrite take_ge, drop_ge by lia. apply app_nil_r.
Qed.

Lemma is_ptr_range p :
  Repr.is_ptr p = true -> 0 <= p < 256 ^ Z.of_nat Repr.sizeof_ptr.
Proof.
  unfold Repr.is_ptr, Repr.ptr_bound. intros H.
  apply andb_true_iff in H as [??]. lia.
Qed.

Lemma fresh_addr_nonnull live : fresh_addr live ≠ 0.
Proof.
  unfold fresh_addr. intros H.
  pose proof (is_fresh ({[0]} ∪ live)) as Hf. rewrite H in Hf. set_solver.
Qed.

Lemma fresh_addr_fresh live : fresh_addr live ∉ live.
Proof.
  unfold fresh_addr.
  pose proof (is_fresh ({[0]} ∪ live)) as Hf. set_solver.
Qed.

(** ** Basic facts *)

Lemma V8LocalValueFromJsValue_bits v :
  val_ (V8LocalValueFromJsValue v) = napi_value_bits v.
Proof.
  unfold V8LocalValueFromJsValue, Local_of_bytes, Local_to_bytes,
    napi_value_to_bytes, sizeof_napi_value. cbn [val_].
  rewrite memcpy_whole by apply length_to_bytes.
  apply of_to_bytes, is_ptr_range, napi_value_wf.
Qed.

Lemma V8LocalValueFromJsValue_eq v :
  V8LocalValueFromJsValue v = {| val_ := napi_value_bits v |}.
Proof.
  pose proof (V8LocalValueFromJsValue_bits v) as H.
  destruct (V8LocalValueFromJsValue v) as [b]. simpl in H. by subst.
Qed.

Lemma open_unfold a v r st :
  extras_open_callback_scope a v r st =
  (let* isolate := V8.Isolate_GetCurrent in
   let* context := V8.GetCurrentContext isolate in
   let* resource_object := resolve_resource v context in
   construct_scope isolate resource_object a r) st.
Proof.
  unfold extras_open_callback_scope, resolve_resource, construct_scope, bind.
  repeat (match goal with |- context [match ?m ?s with _ => _ end] =>
            destruct (m s) end; try reflexivity).
Qed.

Lemma Zeqb_ne n : n ≠ 0 -> (n =? 0) = false.
Proof. intros. by apply Z.eqb_neq. Qed.

Lemma construct_scope_spec st l a r x h0 :
  runtime_active st ->
  async_contexts st !! napi_async_context_ptr a = Some x ->
  slots st !! r = Some h0 ->
  construct_scope (current_isolate st) l a r st = Returned tt (open_post st l x r).
Proof.
  intros [Hi Hc] Ha Hr.
  unfold construct_scope, Node.load_async_context, Node.new_CallbackScope,
    Node.CallbackScope_ctor, V8.GetCurrentContext, store_result,
    async_context_ptr_of, IsEmpty, emit, modify, bind, get, ret.
  rewrite Ha, (Zeqb_ne _ Hi). cbn. rewrite (Zeqb_ne _ Hc). cbn.
  rewrite Hr. reflexivity.
Qed.

Ltac unfold_runtime :=
  unfold resolve_resource, construct_scope,
    Node.load_async_context, Node.new_CallbackScope, Node.CallbackScope_ctor,
    Node.delete_CallbackScope, Node.CallbackScope_dtor, store_result,
    V8.ToObject, V8.ToLocalChecked,
    V8.deref, V8.new_wrapper, V8.Isolate_GetCurrent, V8.GetCurrentContext,
    async_context_ptr_of, CallbackScope_ptr_of, IsEmpty, emit, modify,
    fatal, undefined_behaviour, bind, get, ret in *.

Lemma resolve_object st v o context :
  designates st v (VObject o) ->
  resolve_resource v context st = Returned (V8LocalValueFromJsValue v) st.
Proof.
  unfold designates. intros H. unfold_runtime.
  rewrite V8LocalValueFromJsValue_bits, H. reflexivity.
Qed.

Lemma resolve_nullish st v x context :
  designates st v x -> nullish x = true -> val_ context ≠ 0 ->
  resolve_resource v context st =
  Fatal "v8::ToLocalChecked: Empty MaybeLocal"
    (set_trace (fun t => t ++ [EvThrow "TypeError"]) st).
Proof.
  unfold designates. intros H Hx Hc. unfold_runtime.
  rewrite V8LocalValueFromJsValue_bits, H.
  destruct x; try discriminate; rewrite (Zeqb_ne _ Hc); reflexivity.
Qed.

Lemma resolve_primitive st v x context :
  designates st v x -> is_object x = false -> nullish x = false ->
  val_ context ≠ 0 ->
  resolve_resource v context st =
  Returned {| val_ := wrapper_handle st |} (wrap_post st x).
Proof.
  unfold designates. intros H Ho Hx Hc. unfold_runtime.
  rewrite V8LocalValueFromJsValue_bits, H.
  destruct x; try discriminate; rewrite (Zeqb_ne _ Hc); reflexivity.
Qed.

Lemma resolve_dangling st v context :
  handles st !! napi_value_bits v = None ->
  resolve_resource v context st = Undefined.
Proof.
  intros H. unfold_runtime. rewrite V8LocalValueFromJsValue_bits, H. reflexivity.
Qed.

Lemma resolve_no_context st v x context :
  designates st v x -> is_object x = false -> val_ context = 0 ->
  resolve_resource v context st = Undefined.
Proof.
  unfold designates. intros H Ho Hc. unfold_runtime.
  rewrite V8LocalValueFromJsValue_bits, H, Hc.
  destruct x; try discriminate; reflexivity.
Qed.

Lemma open_active a v r st :
  runtime_active st ->
  extras_open_callback_scope a v r st =
  (let* resource_object := resolve_resource v {| val_ := entered_context st |} in
   construct_scope (current_isolate st) resource_object a r) st.
Proof.
  intros [Hi Hc]. rewrite open_unfold.
  unfold V8.Isolate_GetCurrent, V8.GetCurrentContext, bind at 1 2, get, ret.
  cbn. rewrite (Zeqb_ne _ Hi). reflexivity.
Qed.

Lemma runtime_active_wrap st x : runtime_active st -> runtime_active (wrap_post st x).
Proof. done. Qed.

(** [extras_open_callback_scope] on a resource that designates an object. *)
Lemma open_object a v r st o x h0 :
  runtime_active st ->
  designates st v (VObject o) ->
  async_contexts st !! napi_async_context_ptr a = Some x ->
  slots st !! r = Some h0 ->
  extras_open_callback_scope a v r st =
  Returned tt (open_post st (V8LocalValueFromJsValue v) x r).
Proof.
  intros Hact Hv Ha Hr. rewrite open_active by done.
  unfold bind at 1. rewrite (resolve_object _ _ o) by done.
  by apply (construct_scope_spec _ _ _ _ _ h0).
Qed.

(** ... and on one that designates a primitive other than [undefined] and
    [null]. *)
Lemma open_primitive a v r st p x h0 :
  runtime_active st ->
  designates st v p -> is_object p = false -> nullish p = false ->
  async_contexts st !! napi_async_context_ptr a = Some x ->
  slots st !! r = Some h0 ->
  extras_open_callback_scope a v r st =
  Returned tt (open_post (wrap_post st p) {| val_ := wrapper_handle st |} x r).
Proof.
  intros Hact Hv Ho Hn Ha Hr. rewrite open_active by done.
  unfold bind at 1. rewrite (resolve_primitive _ _ p) by (done || apply Hact).
  by apply (construct_scope_spec (wrap_post st p) _ _ _ _ h0).
Qed.

(** ... and on [undefined] or [null]. *)
Lemma open_nullish a v r st p :
  runtime_active st ->
  designates st v p -> nullish p = true ->
  extras_open_callback_scope a v r st =
  Fatal "v8::ToLocalChecked: Empty MaybeLocal"
    (set_trace (fun t => t ++ [EvThrow "TypeError"]) st).
Proof.
  intros Hact Hv Hn. rewrite open_active by done.
  unfold bind at 1. by rewrite (resolve_nullish _ _ p) by (done || apply Hact).
Qed.

(** Without a current isolate the member call on line 21 goes through a
    null pointer. *)
Lemma open_no_isolate a v r st :
  current_isolate st = 0 -> extras_open_callback_scope a v r st = Undefined.
Proof.
  intros Hi. rewrite open_unfold.
  unfold V8.Isolate_GetCurrent, V8.GetCurrentContext, bind at 1 2, get, ret. cbn.
  by rewrite Hi.
Qed.

Lemma open_isolate a v r st :
  current_isolate st ≠ 0 ->
  extras_open_callback_scope a v r st =
  (let* resource_object := resolve_resource v {| val_ := entered_context st |} in
   construct_scope (current_isolate st) resource_object a r) st.
Proof.
  intros Hi. rewrite open_unfold.
  unfold V8.Isolate_GetCurrent, V8.GetCurrentContext, bind at 1 2, get, ret.
  cbn. rewrite (Zeqb_ne _ Hi). reflexivity.
Qed.

(** With an isolate but no entered context, the constructor of the scope
    gives up, after [new] has returned its storage. *)
Lemma construct_scope_no_context st l a r x :
  current_isolate st ≠ 0 -> entered_context st = 0 ->
  async_contexts st !! napi_async_context_ptr a = Some x ->
  construct_scope (current_isolate st) l a r st =
  Fatal "node::CallbackScope: no current execution context"
    (set_trace (fun t => t ++ [EvNew (scope_addr st)]) st).
Proof.
  intros Hi Hc Ha. unfold_runtime.
  rewrite Ha, (Zeqb_ne _ Hi). cbn. rewrite Hc. reflexivity.
Qed.

Lemma open_no_context_object a v r st o x :
  current_isolate st ≠ 0 -> entered_context st = 0 ->
  designates st v (VObject o) ->
  async_contexts st !! napi_async_context_ptr a = Some x ->
  extras_open_callback_scope a v r st =
  Fatal "node::CallbackScope: no current execution context"
    (set_trace (fun t => t ++ [EvNew (scope_addr st)]) st).
Proof.
  intros Hi Hc Hv Ha. rewrite open_isolate by done.
  unfold bind at 1. rewrite (resolve_object _ _ o) by done.
  by apply (construct_scope_no_context _ _ _ _ x).
Qed.

Lemma open_inactive_not_returned a v r st st' :
  ¬ runtime_active st -> extras_open_callback_scope a v r st ≠ Returned tt st'.
Proof.
  intros Hna H.
  destruct (decide (current_isolate st = 0)) as [Hi|Hi];
    [by rewrite open_no_isolate in H|].
  assert (Hc : entered_context st = 0).
  { destruct (decide (entered_context st = 0)); [done|]. by destruct Hna. }
  rewrite open_isolate in H by done. unfold bind at 1 in H.
  destruct (handles st !! napi_value_bits v) as [x|] eqn:Hv;
    [|by rewrite resolve_dangling in H].
  destruct (is_object x) eqn:Ho.
  - destruct x; try discriminate.
    rewrite (resolve_object _ _ o) in H by done.
    destruct (async_contexts st !! napi_async_context_ptr a) as [y|] eqn:Ha.
    + by rewrite (construct_scope_no_context _ _ _ _ y) in H.
    + unfold_runtime. by rewrite Ha in H.
  - by rewrite (resolve_no_context _ _ x) in H.
Qed.

Lemma construct_scope_inv st l a r st' :
  runtime_active st ->
  construct_scope (current_isolate st) l a r st = Returned tt st' ->
  ∃ x, async_contexts st !! napi_async_context_ptr a = Some x
       ∧ is_Some (slots st !! r) ∧ st' = open_post st l x r.
Proof.
  intros Hact H.
  destruct (async_contexts st !! napi_async_context_ptr a) as [x|] eqn:Ha.
  - destruct (slots st !! r) as [h0|] eqn:Hr.
    + rewrite (construct_scope_spec _ _ _ _ x h0) in H by done.
      exists x. split_and!; [done | by eexists | congruence].
    + exfalso. destruct Hact as [Hi Hc]. unfold_runtime.
      rewrite Ha, (Zeqb_ne _ Hi) in H. cbn in H.
      rewrite (Zeqb_ne _ Hc) in H. cbn in H. by rewrite Hr in H.
  - exfalso. unfold_runtime. by rewrite Ha in H.
Qed.

(** Every normal return of [extras_open_callback_scope] went through the
    construction of a scope, on the resource itself or on a wrapper. *)
Lemma open_returned_inv a v r st st' :
  extras_open_callback_scope a v r st = Returned tt st' ->
  runtime_active st ∧
  ∃ x l st1,
    async_contexts st !! napi_async_context_ptr a = Some x
    ∧ is_Some (slots st !! r)
    ∧ st' = open_post st1 l x r
    ∧ ((∃ o, designates st v (VObject o)) ∧ st1 = st ∧ l = V8LocalValueFromJsValue v
       ∨ (∃ p, designates st v p ∧ is_object p = false ∧ nullish p = false
               ∧ st1 = wrap_post st p ∧ l = {| val_ := wrapper_handle st |})).
Proof.
  intros H.
  destruct (decide (current_isolate st ≠ 0 ∧ entered_context st ≠ 0)) as [Hact|Hna];
    [|by apply open_inactive_not_returned in H].
  split; [done|].
  rewrite open_active in H by done. unfold bind at 1 in H.
  destruct (handles st !! napi_value_bits v) as [p|] eqn:Hv;
    [|by rewrite resolve_dangling in H].
  destruct (is_object p) eqn:Ho.
  - destruct p; try discriminate.
    rewrite (resolve_object _ _ o) in H by done.
    apply construct_scope_inv in H as (x & Ha & Hr & ->); [|done].
    exists x, (V8LocalValueFromJsValue v), st. split_and!; try done.
    left. split; [by exists o | done].
  - destruct (nullish p) eqn:Hn.
    + by rewrite (resolve_nullish _ _ p) in H by (done || apply Hact).
    + rewrite (resolve_primitive _ _ p) in H by (done || apply Hact).
      apply (construct_scope_inv (wrap_post st p)) in H as (x & Ha & Hr & ->);
        [|done].
      exists x, {| val_ := wrapper_handle st |}, (wrap_post st p).
      split_and!; try done. right. by exists p.
Qed.

Lemma close_null st :
  extras_close_callback_scope {| extras_callback_scope_ptr := 0 |} st = Returned tt st.
Proof. reflexivity. Qed.

Lemma close_live h st s :
  extras_callback_scope_ptr h ≠ 0 ->
  scopes st !! extras_callback_scope_ptr h = Some s ->
  innermost st (extras_callback_scope_ptr h) ->
  extras_close_callback_scope h st =
  Returned tt (close_post st (extras_callback_scope_ptr h) s).
Proof.
  intros Hp Hs Hin. unfold extras_close_callback_scope. unfold_runtime.
  rewrite (Zeqb_ne _ Hp), Hs. unfold innermost in Hin.
  destruct (async_stack st) as [|f rest] eqn:Hst; [done|].
  cbn in Hin. injection Hin as Hf.
  rewrite Hf, Z.eqb_refl. unfold close_post. cbn. reflexivity.
Qed.

Lemma close_dead h st :
  extras_callback_scope_ptr h ≠ 0 ->
  scopes st !! extras_callback_scope_ptr h = None ->
  extras_close_callback_scope h st = Undefined.
Proof.
  intros Hp Hs. unfold extras_close_callback_scope. unfold_runtime.
  rewrite (Zeqb_ne _ Hp), Hs. reflexivity.
Qed.

(** Closing a live scope that is not the innermost one. *)
Lemma close_out_of_order h st s :
  extras_callback_scope_ptr h ≠ 0 ->
  scopes st !! extras_callback_scope_ptr h = Some s ->
  ¬ innermost st (extras_callback_scope_ptr h) ->
  extras_close_callback_scope h st = Undefined.
Proof.
  intros Hp Hs Hin. unfold extras_close_callback_scope. unfold_runtime.
  rewrite (Zeqb_ne _ Hp), Hs. unfold innermost in Hin.
  destruct (async_stack st) as [|f rest] eqn:Hst; [done|].
  cbn in Hin.
  destruct (frame_scope f =? extras_callback_scope_ptr h) eqn:Hf; [|done].
  apply Z.eqb_eq in Hf. by rewrite Hf in Hin.
Qed.

Lemma close_returned_inv h st st' :
  extras_close_callback_scope h st = Returned tt st' ->
  extras_callback_scope_ptr h = 0 ∧ st' = st
  ∨ extras_callback_scope_ptr h ≠ 0
    ∧ ∃ s, scopes st !! extras_callback_scope_ptr h = Some s
           ∧ st' = close_post st (extras_callback_scope_ptr h) s.
Proof.
  intros H. destruct (decide (extras_callback_scope_ptr h = 0)) as [Hz|Hnz].
  - left. split; [done|]. destruct h as [p]. simpl in Hz. subst p.
    rewrite close_null in H. congruence.
  - right. split; [done|].
    destruct (scopes st !! extras_callback_scope_ptr h) as [s|] eqn:Hs;
      [|by rewrite close_dead in H].
    destruct (decide (frame_scope <$> head (async_stack st)
                      = Some (extras_callback_scope_ptr h))) as [Hin|Hout].
    + rewrite (close_live _ _ s) in H by done. exists s. split; congruence.
    + by rewrite (close_out_of_order _ _ s) in H.
Qed.

(** A close of a non-null handle that returns was the close of the
    innermost scope. *)
Lemma close_returned_innermost h st st' :
  extras_close_callback_scope h st = Returned tt st' ->
  extras_callback_scope_ptr h ≠ 0 ->
  innermost st (extras_callback_scope_ptr h).
Proof.
  intros H Hnz.
  destruct (decide (frame_scope <$> head (async_stack st)
                      = Some (extras_callback_scope_ptr h))) as [|Hout]; [done|].
  destruct (scopes st !! extras_callback_scope_ptr h) as [s|] eqn:Hs.
  - by rewrite (close_out_of_order _ _ s) in H.
  - by rewrite close_dead in H.
Qed.

Lemma scope_addr_nonnull st : scope_addr st ≠ 0.
Proof. apply fresh_addr_nonnull. Qed.

Lemma scope_addr_fresh st : scopes st !! scope_addr st = None.
Proof. apply not_elem_of_dom, fresh_addr_fresh. Qed.

Lemma wrapper_addr_fresh st : objects st !! wrapper_addr st = None.
Proof. apply not_elem_of_dom, fresh_addr_fresh. Qed.

Lemma wrapper_handle_fresh st : handles st !! wrapper_handle st = None.
Proof. apply not_elem_of_dom, fresh_addr_fresh. Qed.

Lemma open_keeps_scope a v r st st' p s :
  extras_open_callback_scope a v r st = Returned tt st' ->
  scopes st !! p = Some s -> scopes st' !! p = Some s.
Proof.
  intros H Hs.
  apply open_returned_inv in H as (_ & x & l & st1 & _ & _ & -> & Hst1).
  assert (Hsc : scopes st1 = scopes st).
  { destruct Hst1 as [(_ & -> & _)|(q & _ & _ & _ & -> & _)]; done. }
  cbn. rewrite lookup_insert_ne; [by rewrite Hsc|].
  intros <-. pose proof (scope_addr_fresh st1) as Hf.
  rewrite Hsc in Hf. congruence.
Qed.

Lemma close_keeps_scope h st st' p s :
  extras_close_callback_scope h st = Returned tt st' ->
  extras_callback_scope_ptr h ≠ p ->
  scopes st !! p = Some s -> scopes st' !! p = Some s.
Proof.
  intros H Hne Hs.
  apply close_returned_inv in H as [[_ ->]|(_ & s' & _ & ->)]; [done|].
  cbn. by rewrite lookup_delete_ne.
Qed.

Lemma run_keeps_scope cs st st' h s :
  Close h ∉ cs ->
  run cs st = Returned tt st' ->
  scopes st !! extras_callback_scope_ptr h = Some s ->
  scopes st' !! extras_callback_scope_ptr h = Some s.
Proof.
  revert st. induction cs as [|c cs IH]; intros st Hnot Hrun Hs.
  - cbn in Hrun. unfold ret in Hrun. congruence.
  - cbn [run] in Hrun. unfold bind in Hrun.
    destruct (run_call c st) as [[] st1| |] eqn:Hc; try discriminate.
    apply (IH st1); [set_solver | done |].
    destruct c as [a v r|h']; cbn [run_call] in Hc.
    + by eapply open_keeps_scope.
    + eapply close_keeps_scope; [done | | done].
      intros Heq. apply Hnot. destruct h, h'. simpl in Heq. subst. set_solver.
Qed.

Lemma new_events_app st st' l :
  trace st' = trace st ++ l -> new_events st st' = l.
Proof. unfold new_events. intros ->. apply drop_app_length. Qed.

Lemma trace_open_post st l x r :
  trace (open_post st l x r) =
  trace st ++ [EvNew (scope_addr st); EvEnter x;
               EvStore r (extras_callback_scope_of (scope_addr st))].
Proof. cbn. by rewrite <- !app_assoc. Qed.

Lemma trace_close_post st p s :
  trace (close_post st p s) = trace st ++ [EvExit (scope_async_context s); EvDelete p].
Proof. cbn. by rewrite <- !app_assoc. Qed.

(** ** The claims *)

(** C5.  For every external value handle that currently designates an object,
    the value-conversion step returns a reference with the very bits of the
    handle, hence to the same object, and leaves the whole state as it was:
    no object is allocated, no hook or script runs, nothing is written. *)
Theorem conversion_aliases_object st v o context :
  designates st v (VObject o) ->
  val_ (V8LocalValueFromJsValue v) = napi_value_bits v
  ∧ handles st !! val_ (V8LocalValueFromJsValue v) = Some (VObject o)
  ∧ resolve_resource v context st = Returned (V8LocalValueFromJsValue v) st.
Proof.
  intros H. split_and!.
  - apply V8LocalValueFromJsValue_bits.
  - by rewrite V8LocalValueFromJsValue_bits.
  - by apply (resolve_object _ _ o).
Qed.

Lemma conversion_aliases_object_witness :
  designates Example.st0 Example.R1 (VObject 7)
  ∧ val_ (V8LocalValueFromJsValue Example.R1) = 4096
  ∧ handles Example.st0 !! val_ (V8LocalValueFromJsValue Example.R1) = Some (VObject 7)
  ∧ resolve_resource Example.R1 {| val_ := 2000 |} Example.st0
    = Returned (V8LocalValueFromJsValue Example.R1) Example.st0.
Proof.
  split; [reflexivity|].
  apply (conversion_aliases_object Example.st0 Example.R1 7 {| val_ := 2000 |}).
  reflexivity.
Defined.

(** C10.  Closing a null scope handle deletes nothing and returns normally:
    the state, trace included, is unchanged. *)
Theorem close_null_handle_is_noop st :
  extras_close_callback_scope {| extras_callback_scope_ptr := 0 |} st = Returned tt st
  ∧ deallocations (new_events st st) = [].
Proof.
  split; [reflexivity|].
  unfold new_events. by rewrite drop_all.
Qed.

(** What every normal return of [extras_open_callback_scope] has done. *)
Lemma open_returned_scope a v r st st' :
  extras_open_callback_scope a v r st = Returned tt st' ->
  ∃ p s,
    p ≠ 0
    ∧ allocations (new_events st st') = [p]
    ∧ stores_to r (new_events st st') = [extras_callback_scope_of p]
    ∧ scopes st !! p = None
    ∧ scopes st' = <[p:=s]> (scopes st)
    ∧ slots st' = <[r:=extras_callback_scope_of p]> (slots st).
Proof.
  intros H.
  apply open_returned_inv in H as (_ & x & l & st1 & _ & _ & -> & Hst1).
  exists (scope_addr st1), (scope_made st1 l x).
  assert (Hev : ∃ pre, allocations pre = [] ∧ stores_to r pre = []
                       ∧ trace st1 = trace st ++ pre ∧ scopes st1 = scopes st
                       ∧ slots st1 = slots st).
  { destruct Hst1 as [(_ & -> & _)|(q & _ & _ & _ & -> & _)].
    - exists []. by rewrite app_nil_r.
    - exists [EvNewObject (wrapper_addr st)]. done. }
  destruct Hev as (pre & Hal & Hsto & Htr & Hsc & Hsl).
  assert (Hnew : new_events st (open_post st1 l x r) =
                 pre ++ [EvNew (scope_addr st1); EvEnter x;
                         EvStore r (extras_callback_scope_of (scope_addr st1))]).
  { apply new_events_app. by rewrite trace_open_post, Htr, <- app_assoc. }
  rewrite Hnew. unfold allocations, stores_to in *. rewrite !omap_app, Hal, Hsto.
  split_and!.
  - apply scope_addr_nonnull.
  - done.
  - cbn. by rewrite decide_True.
  - rewrite <- Hsc. apply scope_addr_fresh.
  - cbn. by rewrite Hsc.
  - cbn. by rewrite Hsl.
Qed.

(** The frame a returning open has pushed is that of the scope whose handle
    is in the result slot. *)
Lemma open_returned_stack a v r st st' h :
  extras_open_callback_scope a v r st = Returned tt st' ->
  slots st' !! r = Some h ->
  ∃ x, async_contexts st !! napi_async_context_ptr a = Some x
       ∧ async_stack st'
         = {| frame_scope := extras_callback_scope_ptr h;
              frame_async_context := x |} :: async_stack st.
Proof.
  intros H Hslot.
  apply open_returned_inv in H as (_ & x & l & st1 & Ha & _ & -> & Hst1).
  cbn in Hslot. rewrite lookup_insert_eq in Hslot. injection Hslot as <-.
  exists x. split; [done|].
  by destruct Hst1 as [(_ & -> & _)|(q & _ & _ & _ & -> & _)].
Qed.

Lemma open_returned_innermost a v r st st' h :
  extras_open_callback_scope a v r st = Returned tt st' ->
  slots st' !! r = Some h ->
  innermost st' (extras_callback_scope_ptr h).
Proof.
  intros H Hslot.
  destruct (open_returned_stack _ _ _ _ _ _ H Hslot) as (x & _ & Hst).
  unfold innermost. by rewrite Hst.
Qed.

(** C8.  Whenever [extras_open_callback_scope] returns normally, the result
    slot holds a non-null handle to a scope that [new] has just allocated,
    and the call stored to the slot exactly once. *)
Theorem open_writes_result_once a v r st st' :
  extras_open_callback_scope a v r st = Returned tt st' ->
  ∃ p s,
    p ≠ 0
    ∧ allocations (new_events st st') = [p]
    ∧ scopes st !! p = None
    ∧ scopes st' !! p = Some s
    ∧ slots st' !! r = Some (extras_callback_scope_of p)
    ∧ stores_to r (new_events st st') = [extras_callback_scope_of p].
Proof.
  intros H.
  apply open_returned_scope in H as (p & s & Hp & Hal & Hsto & Hfresh & Hsc & Hsl).
  exists p, s. rewrite Hsc, Hsl. split_and!; try done; apply lookup_insert_eq.
Qed.

Lemma open_writes_result_once_witness :
  ∃ p s,
    p ≠ 0
    ∧ allocations (new_events Example.st0 Example.st1) = [p]
    ∧ scopes Example.st0 !! p = None
    ∧ scopes Example.st1 !! p = Some s
    ∧ slots Example.st1 !! Example.slot1 = Some (extras_callback_scope_of p)
    ∧ stores_to Example.slot1 (new_events Example.st0 Example.st1)
      = [extras_callback_scope_of p].
Proof.
  apply (open_writes_result_once Example.A1 Example.R1 Example.slot1
           Example.st0 Example.st1).
  vm_compute. reflexivity.
Defined.

(** C9.  The handle encoding round-trips: for a handle that
    [extras_open_callback_scope] left in the result slot, the pointer
    [extras_close_callback_scope] recovers from it is the address [new]
    returned in that open, the close frees exactly that address, and the set
    of live scopes is again what it was before the open. *)
Theorem close_deletes_what_open_created a v r st st1 h :
  extras_open_callback_scope a v r st = Returned tt st1 ->
  slots st1 !! r = Some h ->
  ∃ p st2,
    allocations (new_events st st1) = [p]
    ∧ h = extras_callback_scope_of p
    ∧ CallbackScope_ptr_of h = p
    ∧ extras_close_callback_scope h st1 = Returned tt st2
    ∧ deallocations (new_events st1 st2) = [p]
    ∧ scopes st2 = scopes st.
Proof.
  intros Hopen Hslot.
  pose proof (open_returned_innermost _ _ _ _ _ _ Hopen Hslot) as Hin.
  apply open_returned_scope in Hopen as (p & s & Hp & Hal & _ & Hfresh & Hsc & Hsl).
  rewrite Hsl, lookup_insert_eq in Hslot. injection Hslot as <-.
  assert (Hlive : scopes st1 !! p = Some s) by (rewrite Hsc; apply lookup_insert_eq).
  exists p, (close_post st1 p s). split_and!; try done.
  - by apply close_live.
  - erewrite new_events_app by apply trace_close_post. done.
  - cbn. rewrite Hsc, delete_insert_eq. by apply delete_id.
Qed.

Lemma close_deletes_what_open_created_witness :
  ∃ p st2,
    allocations (new_events Example.st0 Example.st1) = [p]
    ∧ Example.S1 = extras_callback_scope_of p
    ∧ CallbackScope_ptr_of Example.S1 = p
    ∧ extras_close_callback_scope Example.S1 Example.st1 = Returned tt st2
    ∧ deallocations (new_events Example.st1 st2) = [p]
    ∧ scopes st2 = scopes Example.st0.
Proof.
  apply (close_deletes_what_open_created Example.A1 Example.R1 Example.slot1
           Example.st0 Example.st1 Example.S1).
  - vm_compute. reflexivity.
  - vm_compute. reflexivity.
Defined.

(** C4, as the spec states it, fails: [S1] comes from an open and has not
    been closed, but after a nested open its scope is no longer the
    innermost one, and closing it then does not succeed. *)
Lemma close_outer_scope_counterexample :
  extras_open_callback_scope Example.A1 Example.R1 Example.slot1 Example.st0
  = Returned tt Example.st1
  ∧ slots Example.st1 !! Example.slot1 = Some Example.S1
  ∧ (Close Example.S1 ∉ [Open Example.A2 Example.R1 Example.slot2])
  ∧ run [Open Example.A2 Example.R1 Example.slot2] Example.st1
    = Returned tt Example.st2
  ∧ is_Some (scopes Example.st2 !! CallbackScope_ptr_of Example.S1)
  ∧ extras_close_callback_scope Example.S1 Example.st2 = Undefined
  ∧ ¬ ∃ st', extras_close_callback_scope Example.S1 Example.st2 = Returned tt st'.
Proof.
  split_and!.
  - vm_compute. reflexivity.
  - vm_compute. reflexivity.
  - intros Hin. apply list_elem_of_singleton in Hin. discriminate Hin.
  - vm_compute. reflexivity.
  - eexists. vm_compute. reflexivity.
  - vm_compute. reflexivity.
  - intros [st' H]. vm_compute in H. discriminate H.
Qed.

(** C4, amended.  A handle produced by [extras_open_callback_scope], not
    closed in any of the calls made since, and whose scope is the innermost
    open one is closed successfully: the close returns, the scope behind
    the handle is destroyed (its exit hooks run, its frame is popped) and
    its storage is released; nothing else changes. *)
Theorem close_innermost_handle_succeeds a v r st0 st1 h cs st :
  extras_open_callback_scope a v r st0 = Returned tt st1 ->
  slots st1 !! r = Some h ->
  Close h ∉ cs ->
  run cs st1 = Returned tt st ->
  innermost st (CallbackScope_ptr_of h) ->
  ∃ s st',
    scopes st !! CallbackScope_ptr_of h = Some s
    ∧ extras_close_callback_scope h st = Returned tt st'
    ∧ new_events st st' = [EvExit (scope_async_context s);
                           EvDelete (CallbackScope_ptr_of h)]
    ∧ scopes st' = delete (CallbackScope_ptr_of h) (scopes st)
    ∧ scopes st' !! CallbackScope_ptr_of h = None
    ∧ async_stack st' = tail (async_stack st)
    ∧ handles st' = handles st ∧ objects st' = objects st
    ∧ slots st' = slots st ∧ async_contexts st' = async_contexts st.
Proof.
  intros Hopen Hslot Hnot Hrun Hin.
  apply open_returned_scope in Hopen as (p & s & Hp & _ & _ & _ & Hsc & Hsl).
  rewrite Hsl, lookup_insert_eq in Hslot. injection Hslot as <-.
  assert (Hlive : scopes st1 !! p = Some s) by (rewrite Hsc; apply lookup_insert_eq).
  unfold CallbackScope_ptr_of in *.
  cbn [extras_callback_scope_of extras_callback_scope_ptr] in *.
  pose proof (run_keeps_scope cs st1 st (extras_callback_scope_of p) s Hnot Hrun Hlive)
    as Hs.
  cbn in Hs.
  exists s, (close_post st p s). split_and!; try done.
  - by apply close_live.
  - apply new_events_app, trace_close_post.
  - cbn. apply lookup_delete_eq.
Qed.

Lemma close_innermost_handle_succeeds_witness :
  ∃ s st',
    scopes Example.st3 !! CallbackScope_ptr_of Example.S1 = Some s
    ∧ extras_close_callback_scope Example.S1 Example.st3 = Returned tt st'
    ∧ new_events Example.st3 st' = [EvExit (scope_async_context s);
                                    EvDelete (CallbackScope_ptr_of Example.S1)]
    ∧ scopes st' = delete (CallbackScope_ptr_of Example.S1) (scopes Example.st3)
    ∧ scopes st' !! CallbackScope_ptr_of Example.S1 = None
    ∧ async_stack st' = tail (async_stack Example.st3)
    ∧ handles st' = handles Example.st3 ∧ objects st' = objects Example.st3
    ∧ slots st' = slots Example.st3
    ∧ async_contexts st' = async_contexts Example.st3.
Proof.
  apply (close_innermost_handle_succeeds Example.A1 Example.R1 Example.slot1
           Example.st0 Example.st1 Example.S1
           [Open Example.A2 Example.R1 Example.slot2; Close Example.S2]
           Example.st3).
  - vm_compute. reflexivity.
  - vm_compute. reflexivity.
  - intros Hin. apply elem_of_cons in Hin as [Hin|Hin]; [discriminate Hin|].
    apply list_elem_of_singleton in Hin. discriminate Hin.
  - vm_compute. reflexivity.
  - vm_compute. reflexivity.
Defined.

(** C3.  With an active runtime, a valid async context, a resource handle
    that designates an object and a valid result slot,
    [extras_open_callback_scope] succeeds: it constructs a new scope bound
    to the current context, to the resource object and to the async context,
    pushes its frame and stores a handle to it in the result slot.  The
    handle stays valid through any later calls that do not close it; once
    its scope is the innermost one again it is closed successfully, and
    after that one close it is no longer valid: a second close is
    undefined. *)
Theorem open_object_succeeds a v r st o :
  runtime_active st ->
  designates st v (VObject o) ->
  valid_async_context st a ->
  valid_slot st r ->
  ∃ st' h s x,
    extras_open_callback_scope a v r st = Returned tt st'
    ∧ slots st' !! r = Some h
    ∧ scopes st !! CallbackScope_ptr_of h = None
    ∧ scopes st' !! CallbackScope_ptr_of h = Some s
    ∧ scope_isolate s = current_isolate st
    ∧ scope_context s = {| val_ := entered_context st |}
    ∧ handles st' !! val_ (scope_resource s) = Some (VObject o)
    ∧ async_contexts st !! napi_async_context_ptr a = Some x
    ∧ scope_async_context s = x
    ∧ async_stack st'
      = {| frame_scope := CallbackScope_ptr_of h; frame_async_context := x |}
          :: async_stack st
    ∧ ∀ cs st2,
        Close h ∉ cs ->
        run cs st' = Returned tt st2 ->
        scopes st2 !! CallbackScope_ptr_of h = Some s
        ∧ (innermost st2 (CallbackScope_ptr_of h) ->
           ∃ st3, extras_close_callback_scope h st2 = Returned tt st3
                  ∧ scopes st3 !! CallbackScope_ptr_of h = None
                  ∧ extras_close_callback_scope h st3 = Undefined).
Proof.
  intros Hact Hv [x Ha] [h0 Hr].
  exists (open_post st (V8LocalValueFromJsValue v) x r),
    (extras_callback_scope_of (scope_addr st)),
    (scope_made st (V8LocalValueFromJsValue v) x), x.
  assert (Hlive : scopes (open_post st (V8LocalValueFromJsValue v) x r)
                    !! scope_addr st
                  = Some (scope_made st (V8LocalValueFromJsValue v) x)).
  { cbn. apply lookup_insert_eq. }
  split_and!; try done.
  - by apply (open_object _ _ _ _ o x h0).
  - cbn. apply lookup_insert_eq.
  - apply scope_addr_fresh.
  - change (handles st !! val_ (V8LocalValueFromJsValue v) = Some (VObject o)).
    by rewrite V8LocalValueFromJsValue_bits.
  - intros cs st2 Hnot Hrun.
    pose proof (run_keeps_scope cs _ st2 _ _ Hnot Hrun Hlive) as Hs.
    split; [done|]. intros Hin.
    eexists. split_and!.
    + apply close_live; [apply scope_addr_nonnull | exact Hs | exact Hin].
    + cbn. apply lookup_delete_eq.
    + apply close_dead; [apply scope_addr_nonnull|]. cbn. apply lookup_delete_eq.
Qed.

Lemma open_object_succeeds_witness :
  ∃ st' h s x,
    extras_open_callback_scope Example.A1 Example.R1 Example.slot1 Example.st0
    = Returned tt st'
    ∧ slots st' !! Example.slot1 = Some h
    ∧ scopes Example.st0 !! CallbackScope_ptr_of h = None
    ∧ scopes st' !! CallbackScope_ptr_of h = Some s
    ∧ scope_isolate s = current_isolate Example.st0
    ∧ scope_context s = {| val_ := entered_context Example.st0 |}
    ∧ handles st' !! val_ (scope_resource s) = Some (VObject 7)
    ∧ async_contexts Example.st0 !! napi_async_context_ptr Example.A1 = Some x
    ∧ scope_async_context s = x
    ∧ async_stack st'
      = {| frame_scope := CallbackScope_ptr_of h; frame_async_context := x |}
          :: async_stack Example.st0
    ∧ ∀ cs st2,
        Close h ∉ cs ->
        run cs st' = Returned tt st2 ->
        scopes st2 !! CallbackScope_ptr_of h = Some s
        ∧ (innermost st2 (CallbackScope_ptr_of h) ->
           ∃ st3, extras_close_callback_scope h st2 = Returned tt st3
                  ∧ scopes st3 !! CallbackScope_ptr_of h = None
                  ∧ extras_close_callback_scope h st3 = Undefined).
Proof.
  apply (open_object_succeeds Example.A1 Example.R1 Example.slot1 Example.st0 7).
  - split; vm_compute; discriminate.
  - vm_compute. reflexivity.
  - eexists. vm_compute. reflexivity.
  - eexists. vm_compute. reflexivity.
Defined.

(** C1, as the spec states it, fails: on the number 42 the open returns
    normally, having constructed a scope and written its handle to the
    result slot. *)
Lemma open_number_counterexample :
  designates Example.st0 Example.R2 (VNumber 42)
  ∧ is_object (VNumber 42) = false
  ∧ ∃ st',
      extras_open_callback_scope Example.A1 Example.R2 Example.slot1 Example.st0
      = Returned tt st'
      ∧ scopes Example.st0 !! 1 = None
      ∧ is_Some (scopes st' !! 1)
      ∧ slots Example.st0 !! Example.slot1 = Some {| extras_callback_scope_ptr := 0 |}
      ∧ slots st' !! Example.slot1 = Some {| extras_callback_scope_ptr := 1 |}.
Proof.
  split; [reflexivity|]. split; [reflexivity|].
  eexists. split; [vm_compute; reflexivity|].
  split_and!; [reflexivity | eexists; vm_compute; reflexivity
              | reflexivity | vm_compute; reflexivity].
Qed.

(** C1, amended.  No path of [extras_open_callback_scope] reports a type
    mismatch.  On [undefined] and [null] the call does not return: after the
    TypeError of [ToObject], [ToLocalChecked] aborts the process, with no
    scope constructed, no frame pushed and the result slot untouched.  On any
    other non-object value the call succeeds like on an object: the scope is
    constructed on a new wrapper object around the primitive and its handle
    is stored in the result slot. *)
Theorem open_non_object a v r st x :
  runtime_active st ->
  designates st v x ->
  is_object x = false ->
  valid_async_context st a ->
  valid_slot st r ->
  if nullish x then
    ∃ st',
      extras_open_callback_scope a v r st
      = Fatal "v8::ToLocalChecked: Empty MaybeLocal" st'
      ∧ new_events st st' = [EvThrow "TypeError"]
      ∧ scopes st' = scopes st
      ∧ slots st' = slots st
      ∧ async_stack st' = async_stack st
  else
    ∃ st' p s o,
      extras_open_callback_scope a v r st = Returned tt st'
      ∧ p ≠ 0
      ∧ scopes st !! p = None
      ∧ scopes st' !! p = Some s
      ∧ slots st' !! r = Some (extras_callback_scope_of p)
      ∧ objects st !! o = None
      ∧ objects st' !! o = Some (PrimitiveWrapper x)
      ∧ handles st' !! val_ (scope_resource s) = Some (VObject o).
Proof.
  intros Hact Hv Ho [y Ha] [h0 Hr].
  destruct (nullish x) eqn:Hn.
  - eexists. split; [by apply (open_nullish _ _ _ _ x)|].
    split_and!; try done. by apply new_events_app.
  - exists (open_post (wrap_post st x) {| val_ := wrapper_handle st |} y r),
      (scope_addr (wrap_post st x)),
      (scope_made (wrap_post st x) {| val_ := wrapper_handle st |} y),
      (wrapper_addr st).
    split_and!.
    + by apply (open_primitive _ _ _ _ x y h0).
    + apply scope_addr_nonnull.
    + apply (scope_addr_fresh (wrap_post st x)).
    + cbn. apply lookup_insert_eq.
    + cbn. apply lookup_insert_eq.
    + apply wrapper_addr_fresh.
    + cbn. apply lookup_insert_eq.
    + cbn. apply lookup_insert_eq.
Qed.

Lemma open_non_object_witness :
  ∃ st',
    extras_open_callback_scope Example.A1 Example.R3 Example.slot1 Example.st0
    = Fatal "v8::ToLocalChecked: Empty MaybeLocal" st'
    ∧ new_events Example.st0 st' = [EvThrow "TypeError"]
    ∧ scopes st' = scopes Example.st0
    ∧ slots st' = slots Example.st0
    ∧ async_stack st' = async_stack Example.st0.
Proof.
  apply (open_non_object Example.A1 Example.R3 Example.slot1 Example.st0 VUndefined).
  - split; vm_compute; discriminate.
  - vm_compute. reflexivity.
  - reflexivity.
  - eexists. vm_compute. reflexivity.
  - eexists. vm_compute. reflexivity.
Defined.

(** C6, as the spec states it, fails: with no isolate on the thread the open
    does not end in a fatal error that is surfaced to the caller; it calls a
    member function through the null isolate pointer, which is undefined
    behaviour. *)
Lemma open_without_isolate_counterexample :
  ¬ runtime_active Example.st_no_isolate
  ∧ extras_open_callback_scope Example.A1 Example.R1 Example.slot1
      Example.st_no_isolate = Undefined
  ∧ ¬ ∃ msg st',
        extras_open_callback_scope Example.A1 Example.R1 Example.slot1
          Example.st_no_isolate = Fatal msg st'.
Proof.
  split_and!.
  - intros [H _]. by apply H.
  - reflexivity.
  - intros (msg & st' & H). discriminate H.
Qed.

(** C6, amended.  For a call whose resource designates an object and whose
    async context is valid: when an isolate is current but no context is
    entered, the failure is fatal (the construction of the scope aborts the
    process), no scope is constructed and the result slot is not written;
    when no isolate is current at all, nothing is checked and the call is
    undefined behaviour, the isolate pointer being null on line 21. *)
Theorem open_unresolved_context a v r st o :
  designates st v (VObject o) ->
  valid_async_context st a ->
  (current_isolate st = 0 ->
   extras_open_callback_scope a v r st = Undefined)
  ∧ (current_isolate st ≠ 0 -> entered_context st = 0 ->
     ∃ msg st',
       extras_open_callback_scope a v r st = Fatal msg st'
       ∧ scopes st' = scopes st
       ∧ slots st' = slots st
       ∧ async_stack st' = async_stack st
       ∧ stores_to r (new_events st st') = []).
Proof.
  intros Hv [x Ha]. split.
  - apply open_no_isolate.
  - intros Hi Hc. do 2 eexists.
    split; [by apply (open_no_context_object _ _ _ _ o x)|].
    split_and!; try done.
    by erewrite new_events_app by reflexivity.
Qed.

Lemma open_unresolved_context_witness :
  extras_open_callback_scope Example.A1 Example.R1 Example.slot1
    Example.st_no_isolate = Undefined
  ∧ ∃ msg st',
      extras_open_callback_scope Example.A1 Example.R1 Example.slot1
        Example.st_no_context = Fatal msg st'
      ∧ scopes st' = scopes Example.st_no_context
      ∧ slots st' = slots Example.st_no_context
      ∧ async_stack st' = async_stack Example.st_no_context
      ∧ stores_to Example.slot1 (new_events Example.st_no_context st') = [].
Proof.
  split.
  - apply (open_unresolved_context Example.A1 Example.R1 Example.slot1
             Example.st_no_isolate 7).
    + vm_compute. reflexivity.
    + eexists. vm_compute. reflexivity.
    + reflexivity.
  - apply (open_unresolved_context Example.A1 Example.R1 Example.slot1
             Example.st_no_context 7).
    + vm_compute. reflexivity.
    + eexists. vm_compute. reflexivity.
    + vm_compute. discriminate.
    + reflexivity.
Defined.

Lemma open_scope_object a v r st o x h0 :
  runtime_active st ->
  designates st v (VObject o) ->
  async_contexts st !! napi_async_context_ptr a = Some x ->
  slots st !! r = Some h0 ->
  open_scope a v r st =
  Returned (extras_callback_scope_of (scope_addr st))
    (open_post st (V8LocalValueFromJsValue v) x r).
Proof.
  intros Hact Hv Ha Hr. unfold open_scope, bind.
  rewrite (open_object _ _ _ _ o x h0) by done.
  unfold read_slot, bind, get, ret. cbn. by rewrite lookup_insert_eq.
Qed.

Lemma valid_open_args_post st l y r x :
  valid_open_args st x -> valid_open_args (open_post st l y r) x.
Proof.
  intros (Ha & Hv & Hs). split_and!; [done | done |].
  unfold valid_slot in *. cbn. rewrite lookup_insert_is_Some.
  destruct (decide (r = x.2)); [by left | by right].
Qed.

Lemma open_nested_spec args :
  ∀ st,
    runtime_active st ->
    Forall (valid_open_args st) args ->
    ∃ hs st1 frames,
      open_nested args st = Returned hs st1
      ∧ length hs = length args
      ∧ length frames = length args
      ∧ async_stack st1 = frames ++ async_stack st
      ∧ frame_scope <$> frames = reverse (extras_callback_scope_ptr <$> hs)
      ∧ (∀ p s, scopes st !! p = Some s -> scopes st1 !! p = Some s)
      ∧ NoDup (extras_callback_scope_ptr <$> hs)
      ∧ Forall (opened_handle st st1) hs.
Proof.
  induction args as [|[[a v] r] args IH]; intros st Hact Hargs.
  - exists [], st, []. split_and!; try done; constructor.
  - apply Forall_cons in Hargs as [([x Ha] & [o Hv] & [h0 Hr]) Hrest].
    cbn [fst snd] in Ha, Hv, Hr.
    set (st' := open_post st (V8LocalValueFromJsValue v) x r).
    destruct (IH st') as (hs & st1 & frames & Hrun & Hlen & Hfr & Hstack & Hids
                          & Hmono & Hnd & Hall).
    { done. }
    { eapply Forall_impl; [exact Hrest|]. intros y. apply valid_open_args_post. }
    assert (Hlive : scopes st' !! scope_addr st
                    = Some (scope_made st (V8LocalValueFromJsValue v) x)).
    { cbn. apply lookup_insert_eq. }
    exists (extras_callback_scope_of (scope_addr st) :: hs), st1,
      (frames ++ [{| frame_scope := scope_addr st; frame_async_context := x |}]).
    split_and!.
    + cbn [open_nested]. unfold bind at 1.
      rewrite (open_scope_object _ _ _ _ o x h0) by done.
      fold st'. unfold bind. rewrite Hrun. reflexivity.
    + cbn. by rewrite Hlen.
    + rewrite length_app. cbn. lia.
    + rewrite Hstack, <- app_assoc. reflexivity.
    + rewrite fmap_app, Hids, (fmap_cons extras_callback_scope_ptr), reverse_cons.
      reflexivity.
    + intros p s Hs. apply Hmono. cbn.
      rewrite lookup_insert_ne; [done|].
      intros <-. pose proof (scope_addr_fresh st). congruence.
    + cbn. constructor; [|done].
      intros Hin. apply list_elem_of_fmap in Hin as (h & Hh & Hin).
      rewrite Forall_forall in Hall. destruct (Hall h Hin) as (_ & Hnone & _).
      rewrite <- Hh in Hnone. cbn in Hnone. rewrite lookup_insert_eq in Hnone.
      discriminate.
    + constructor.
      * split_and!; cbn; [apply scope_addr_nonnull | apply scope_addr_fresh |].
        eexists. apply Hmono. exact Hlive.
      * eapply Forall_impl; [exact Hall|]. intros h (Hp & Hnone & Hsome).
        split_and!; [done | | done].
        cbn in Hnone. apply lookup_insert_None in Hnone as [? _]. done.
Qed.

(** Closing handles in the order of their frames, top first. *)
Lemma close_all_spec hs :
  ∀ st1 frames rest,
    async_stack st1 = frames ++ rest ->
    frame_scope <$> frames = extras_callback_scope_ptr <$> hs ->
    NoDup (extras_callback_scope_ptr <$> hs) ->
    Forall (fun h => extras_callback_scope_ptr h ≠ 0
                     ∧ is_Some (scopes st1 !! extras_callback_scope_ptr h)) hs ->
    ∃ st2,
      close_all hs st1 = Returned tt st2
      ∧ async_stack st2 = rest.
Proof.
  induction hs as [|h hs IH]; intros st1 frames rest Hstack Hids Hnd Hall.
  - destruct frames; [|done]. exists st1. done.
  - destruct frames as [|f frames]; [done|].
    cbn in Hids. injection Hids as Hf Hids.
    apply Forall_cons in Hall as [[Hp [s Hs]] Hall].
    cbn in Hnd. apply NoDup_cons in Hnd as [Hnotin Hnd].
    destruct (IH (close_post st1 (extras_callback_scope_ptr h) s) frames rest)
      as (st2 & Hrun & Hst).
    { cbn. by rewrite Hstack. }
    { done. }
    { done. }
    { rewrite Forall_forall in Hall |- *. intros h' Hin.
      destruct (Hall h' Hin) as [Hp' Hs']. split; [done|].
      cbn. rewrite lookup_delete_ne; [done|].
      intros Heq. apply Hnotin. rewrite Heq. by apply list_elem_of_fmap_2. }
    exists st2. split; [|done].
    cbn [close_all]. unfold bind. rewrite (close_live _ _ s); [done..|].
    unfold innermost. rewrite Hstack. cbn. by rewrite Hf.
Qed.

(** C2.  For N >= 1 nested opens on valid async contexts and object-typed
    resources, followed by the closes of the returned handles in reverse
    order, every call succeeds, the opens push N frames in all and the
    closes pop them again: the async-context stack, and so its depth, is
    what it was before the first open. *)
Theorem nested_open_close_restores_depth args st :
  (1 <= length args)%nat ->
  runtime_active st ->
  Forall (valid_open_args st) args ->
  ∃ hs st1 st2,
    open_nested args st = Returned hs st1
    ∧ length hs = length args
    ∧ length (async_stack st1) = (length (async_stack st) + length args)%nat
    ∧ close_all (reverse hs) st1 = Returned tt st2
    ∧ async_stack st2 = async_stack st
    ∧ length (async_stack st2) = length (async_stack st).
Proof.
  intros _ Hact Hargs.
  destruct (open_nested_spec args st Hact Hargs)
    as (hs & st1 & frames & Hrun & Hlen & Hfr & Hstack & Hids & _ & Hnd & Hall).
  destruct (close_all_spec (reverse hs) st1 frames (async_stack st))
    as (st2 & Hclose & Hsame).
  { done. }
  { by rewrite fmap_reverse. }
  { rewrite fmap_reverse. by rewrite reverse_Permutation. }
  { apply Forall_reverse. eapply Forall_impl; [exact Hall|].
    intros h (Hp & _ & Hs). done. }
  exists hs, st1, st2. split_and!; try done.
  - rewrite Hstack, length_app. lia.
  - by rewrite Hsame.
Qed.

Lemma nested_open_close_restores_depth_witness :
  ∃ hs st1 st2,
    open_nested [(Example.A1, Example.R1, Example.slot1);
                 (Example.A2, Example.R1, Example.slot2)] Example.st0
    = Returned hs st1
    ∧ length hs = 2%nat
    ∧ length (async_stack st1) = (length (async_stack Example.st0) + 2)%nat
    ∧ close_all (reverse hs) st1 = Returned tt st2
    ∧ async_stack st2 = async_stack Example.st0
    ∧ length (async_stack st2) = length (async_stack Example.st0).
Proof.
  apply (nested_open_close_restores_depth
           [(Example.A1, Example.R1, Example.slot1);
            (Example.A2, Example.R1, Example.slot2)] Example.st0).
  - cbn. lia.
  - split; vm_compute; discriminate.
  - repeat constructor; try (eexists; vm_compute; reflexivity).
Defined.


(** ** Further properties of [bindings.cc] *)

Lemma construct_scope_not_fatal l a r st msg st' :
  runtime_active st ->
  construct_scope (current_isolate st) l a r st ≠ Fatal msg st'.
Proof.
  intros [Hi Hc]. unfold_runtime.
  destruct (async_contexts st !! napi_async_context_ptr a); [|done].
  cbn. rewrite (Zeqb_ne _ Hi). cbn. rewrite (Zeqb_ne _ Hc). cbn.
  destruct (slots st !! r); done.
Qed.

Lemma napi_value_eq v1 v2 :
  napi_value_bits v1 = napi_value_bits v2 -> v1 = v2.
Proof.
  destruct v1 as [b1 H1], v2 as [b2 H2]. cbn. intros ->.
  f_equal. apply proof_irrel.
Qed.

(** X1.  [V8LocalValueFromJsValue] loses nothing: two handles are converted
    to the same [Local] exactly when they are the same handle. *)
Theorem V8LocalValueFromJsValue_inj v1 v2 :
  V8LocalValueFromJsValue v1 = V8LocalValueFromJsValue v2 <-> v1 = v2.
Proof.
  split; [|by intros ->].
  intros H. apply napi_value_eq.
  rewrite <- !V8LocalValueFromJsValue_bits. by rewrite H.
Qed.

Lemma V8LocalValueFromJsValue_inj_witness :
  V8LocalValueFromJsValue Example.R1 ≠ V8LocalValueFromJsValue Example.R2.
Proof.
  intros H.
  apply (proj1 (V8LocalValueFromJsValue_inj Example.R1 Example.R2)) in H.
  discriminate H.
Defined.

(** X2.  [extras_open_callback_scope] returns normally exactly when the
    runtime is active, the resource handle designates a value other than
    [undefined] and [null], the async context pointer is valid and the
    result pointer is valid. *)
Theorem open_returns_iff a v r st :
  (∃ st', extras_open_callback_scope a v r st = Returned tt st')
  <-> runtime_active st
      ∧ (∃ x, designates st v x ∧ nullish x = false)
      ∧ valid_async_context st a
      ∧ valid_slot st r.
Proof.
  split.
  - intros [st' H].
    apply open_returned_inv in H as (Hact & x & l & st1 & Ha & Hr & _ & Hv).
    split_and!; [done | | by exists x | done].
    destruct Hv as [([o Ho] & _)|(p & Hp & _ & Hn & _)].
    + by exists (VObject o).
    + by exists p.
  - intros (Hact & (x & Hv & Hn) & [y Ha] & [h0 Hr]).
    destruct (is_object x) eqn:Ho.
    + destruct x; try discriminate. eexists.
      by apply (open_object _ _ _ _ o y h0).
    + eexists. by apply (open_primitive _ _ _ _ x y h0).
Qed.

Lemma open_returns_iff_witness :
  ∃ st', extras_open_callback_scope Example.A1 Example.R2 Example.slot2 Example.st0
         = Returned tt st'.
Proof.
  apply (proj2 (open_returns_iff Example.A1 Example.R2 Example.slot2 Example.st0)).
  split_and!.
  - split; vm_compute; discriminate.
  - exists (VNumber 42). split; reflexivity.
  - eexists. vm_compute. reflexivity.
  - eexists. vm_compute. reflexivity.
Defined.

(** X3.  With an active runtime, [extras_open_callback_scope] ends in a fatal
    error exactly when the resource handle designates [undefined] or
    [null]; the async context pointer and the result pointer are not looked
    at before that, so their validity plays no part. *)
Theorem open_fatal_iff a v r st :
  runtime_active st ->
  (∃ msg st', extras_open_callback_scope a v r st = Fatal msg st')
  <-> ∃ x, designates st v x ∧ nullish x = true.
Proof.
  intros Hact. split.
  - intros (msg & st' & H).
    rewrite open_active in H by done. unfold bind at 1 in H.
    destruct (handles st !! napi_value_bits v) as [x|] eqn:Hv;
      [|by rewrite resolve_dangling in H].
    exists x. split; [done|].
    destruct (is_object x) eqn:Ho.
    + destruct x; try discriminate.
      rewrite (resolve_object _ _ o) in H by done.
      by apply construct_scope_not_fatal in H.
    + destruct (nullish x) eqn:Hn; [done|].
      rewrite (resolve_primitive _ _ x) in H by (done || apply Hact).
      by apply (construct_scope_not_fatal _ _ _ (wrap_post st x)) in H.
  - intros (x & Hv & Hn). do 2 eexists. by apply (open_nullish _ _ _ _ x).
Qed.

Lemma open_fatal_iff_witness :
  ∃ msg st',
    extras_open_callback_scope {| napi_async_context_ptr := 0 |} Example.R3 0
      Example.st0 = Fatal msg st'.
Proof.
  apply (open_fatal_iff {| napi_async_context_ptr := 0 |} Example.R3 0 Example.st0).
  - split; vm_compute; discriminate.
  - exists VUndefined. split; reflexivity.
Defined.

(** X4.  [extras_close_callback_scope] does not reset the caller's slot: after
    an open and the close of its handle the slot still holds that handle,
    and closing it a second time is undefined behaviour. *)
Theorem double_close_undefined a v r st st1 h st2 :
  extras_open_callback_scope a v r st = Returned tt st1 ->
  slots st1 !! r = Some h ->
  extras_close_callback_scope h st1 = Returned tt st2 ->
  slots st2 !! r = Some h
  ∧ extras_close_callback_scope h st2 = Undefined.
Proof.
  intros Hopen Hslot Hclose.
  apply open_returned_scope in Hopen as (p & s & Hp & _ & _ & _ & Hsc & Hsl).
  pose proof Hslot as Hslot'.
  rewrite Hsl, lookup_insert_eq in Hslot'. injection Hslot' as <-.
  apply close_returned_inv in Hclose as [[Hz _]|(_ & s' & _ & ->)]; [done|].
  split; [done|].
  apply close_dead; [done|]. cbn. apply lookup_delete_eq.
Qed.

Lemma double_close_undefined_witness :
  slots (close_post Example.st1 1
           (scope_made Example.st0 (V8LocalValueFromJsValue Example.R1)
              {| async_id := 5; trigger_async_id := 1 |})) !! Example.slot1
  = Some Example.S1
  ∧ extras_close_callback_scope Example.S1
      (close_post Example.st1 1
         (scope_made Example.st0 (V8LocalValueFromJsValue Example.R1)
            {| async_id := 5; trigger_async_id := 1 |})) = Undefined.
Proof.
  apply (double_close_undefined Example.A1 Example.R1 Example.slot1 Example.st0
           Example.st1 Example.S1).
  - vm_compute. reflexivity.
  - vm_compute. reflexivity.
  - vm_compute. reflexivity.
Defined.

(** What a returning open leaves alone. *)
Lemma open_returned_frame a v r st st' :
  extras_open_callback_scope a v r st = Returned tt st' ->
  current_isolate st' = current_isolate st
  ∧ entered_context st' = entered_context st
  ∧ async_contexts st' = async_contexts st
  ∧ handles st ⊆ handles st'
  ∧ objects st ⊆ objects st'
  ∧ dom (slots st') = dom (slots st).
Proof.
  intros H.
  apply open_returned_inv in H as (_ & x & l & st1 & _ & Hr & -> & Hst1).
  destruct Hst1 as [(_ & Heq & _)|(q & _ & _ & _ & Heq & _)]; rewrite Heq.
  - split_and!; [done | done | done | done | done |].
    cbn. by apply dom_insert_lookup_L.
  - split_and!; [done | done | done | | |]; cbn.
    + apply insert_subseteq, wrapper_handle_fresh.
    + apply insert_subseteq, wrapper_addr_fresh.
    + by apply dom_insert_lookup_L.
Qed.

Lemma close_returned_frame h st st' :
  extras_close_callback_scope h st = Returned tt st' ->
  current_isolate st' = current_isolate st
  ∧ entered_context st' = entered_context st
  ∧ async_contexts st' = async_contexts st
  ∧ handles st' = handles st
  ∧ objects st' = objects st
  ∧ slots st' = slots st.
Proof.
  intros H. by apply close_returned_inv in H as [[_ ->]|(_ & s & _ & ->)].
Qed.

(** X5.  A returning open writes no memory of the caller but the result
    slot, keeps every scope that was live, keeps what every value handle
    designates, and frees nothing. *)
Theorem open_frame a v r st st' :
  extras_open_callback_scope a v r st = Returned tt st' ->
  (∀ r', r' ≠ r -> slots st' !! r' = slots st !! r')
  ∧ (∀ p s, scopes st !! p = Some s -> scopes st' !! p = Some s)
  ∧ (∀ k x, handles st !! k = Some x -> handles st' !! k = Some x)
  ∧ deallocations (new_events st st') = [].
Proof.
  intros H. split_and!.
  - intros r' Hne.
    apply open_returned_scope in H as (p & s & _ & _ & _ & _ & _ & ->).
    by rewrite lookup_insert_ne.
  - intros p s. by apply (open_keeps_scope a v r).
  - intros k x Hk. apply open_returned_frame in H as (_ & _ & _ & Hh & _).
    by eapply lookup_weaken.
  - apply open_returned_inv in H as (_ & x & l & st1 & _ & _ & -> & Hst1).
    destruct Hst1 as [(_ & -> & _)|(q & _ & _ & _ & -> & _)].
    + by erewrite new_events_app by apply trace_open_post.
    + erewrite new_events_app; [|rewrite trace_open_post; cbn;
                                  rewrite <- app_assoc; reflexivity].
      done.
Qed.

Lemma open_frame_witness :
  (∀ r', r' ≠ Example.slot1 -> slots Example.st1 !! r' = slots Example.st0 !! r')
  ∧ (∀ p s, scopes Example.st0 !! p = Some s -> scopes Example.st1 !! p = Some s)
  ∧ (∀ k x, handles Example.st0 !! k = Some x -> handles Example.st1 !! k = Some x)
  ∧ deallocations (new_events Example.st0 Example.st1) = [].
Proof.
  apply (open_frame Example.A1 Example.R1 Example.slot1 Example.st0 Example.st1).
  vm_compute. reflexivity.
Defined.

(** X6.  Whatever sequence of opens and closes returns, the async contexts
    are as they were (they are borrowed, never written or freed), the
    isolate and its context are the same, every value handle designates
    what it did, and the caller owns the same slots. *)
Theorem run_keeps_borrowed cs st st' :
  run cs st = Returned tt st' ->
  async_contexts st' = async_contexts st
  ∧ current_isolate st' = current_isolate st
  ∧ entered_context st' = entered_context st
  ∧ handles st ⊆ handles st'
  ∧ objects st ⊆ objects st'
  ∧ dom (slots st') = dom (slots st).
Proof.
  revert st. induction cs as [|c cs IH]; intros st Hrun.
  - cbn in Hrun. unfold ret in Hrun. injection Hrun as <-. done.
  - cbn [run] in Hrun. unfold bind in Hrun.
    destruct (run_call c st) as [[] st1| |] eqn:Hc; try discriminate.
    destruct (IH st1 Hrun) as (Ha & Hi & Hx & Hh & Ho & Hs).
    destruct c as [a v r|h]; cbn [run_call] in Hc.
    + apply open_returned_frame in Hc as (Hi1 & Hx1 & Ha1 & Hh1 & Ho1 & Hs1).
      split_and!; try congruence; by etrans.
    + apply close_returned_frame in Hc as (Hi1 & Hx1 & Ha1 & Hh1 & Ho1 & Hs1).
      rewrite <- Hi1, <- Hx1, <- Ha1, <- Hh1, <- Ho1, <- Hs1. done.
Qed.

Lemma run_keeps_borrowed_witness :
  async_contexts Example.st1 = async_contexts Example.st0
  ∧ current_isolate Example.st1 = current_isolate Example.st0
  ∧ entered_context Example.st1 = entered_context Example.st0
  ∧ handles Example.st0 ⊆ handles Example.st1
  ∧ objects Example.st0 ⊆ objects Example.st1
  ∧ dom (slots Example.st1) = dom (slots Example.st0).
Proof.
  apply (run_keeps_borrowed [Open Example.A1 Example.R1 Example.slot1]
           Example.st0 Example.st1).
  vm_compute. reflexivity.
Defined.

(** X7.  Scope accounting: when a sequence of calls returns, the number of
    live scopes has grown by the number of opens and shrunk by the number
    of closes of non-null handles. *)
Theorem run_scope_balance cs st st' :
  run cs st = Returned tt st' ->
  Z.of_nat (size (scopes st')) = Z.of_nat (size (scopes st)) + scope_delta cs.
Proof.
  revert st. induction cs as [|c cs IH]; intros st Hrun.
  - cbn in Hrun. unfold ret in Hrun. injection Hrun as <-. cbn. lia.
  - cbn [run] in Hrun. unfold bind in Hrun.
    destruct (run_call c st) as [[] st1| |] eqn:Hc; try discriminate.
    rewrite (IH st1 Hrun).
    destruct c as [a v r|h]; cbn [run_call scope_delta] in *.
    + apply open_returned_scope in Hc as (p & s & _ & _ & _ & Hfresh & -> & _).
      rewrite map_size_insert_None by done. lia.
    + apply close_returned_inv in Hc as [[Hz ->]|(Hnz & s & Hs & ->)].
      * rewrite Hz. cbn. lia.
      * rewrite (Zeqb_ne _ Hnz). cbn.
        rewrite map_size_delete_Some by done.
        assert (size (scopes st) ≠ 0%nat).
        { intros Hsz. apply map_size_empty_iff in Hsz. rewrite Hsz in Hs. done. }
        lia.
Qed.

Lemma run_scope_balance_witness :
  Z.of_nat (size (scopes Example.st0))
  = Z.of_nat (size (scopes Example.st0))
    + scope_delta [Open Example.A1 Example.R1 Example.slot1; Close Example.S1].
Proof.
  apply (run_scope_balance [Open Example.A1 Example.R1 Example.slot1; Close Example.S1]
           Example.st0
           (close_post Example.st1 1
              (scope_made Example.st0 (V8LocalValueFromJsValue Example.R1)
                 {| async_id := 5; trigger_async_id := 1 |}))).
  vm_compute. reflexivity.
Defined.

Lemma open_scope_returned_inv a v r st h st1 :
  open_scope a v r st = Returned h st1 ->
  ∃ s, extras_callback_scope_ptr h ≠ 0
       ∧ scopes st !! extras_callback_scope_ptr h = None
       ∧ scopes st1 = <[extras_callback_scope_ptr h:=s]> (scopes st).
Proof.
  unfold open_scope, bind. intros H.
  destruct (extras_open_callback_scope a v r st) as [[] st'| |] eqn:Hopen;
    try discriminate.
  apply open_returned_scope in Hopen as (p & s & Hp & _ & _ & Hfresh & Hsc & Hsl).
  unfold read_slot, bind, get, ret in H. rewrite Hsl, lookup_insert_eq in H.
  injection H as <- <-. by exists s.
Qed.

Lemma open_nested_handles args :
  ∀ st hs st1,
    open_nested args st = Returned hs st1 ->
    (∀ p, p ∉ extras_callback_scope_ptr <$> hs -> scopes st1 !! p = scopes st !! p)
    ∧ (∀ p, p ∈ extras_callback_scope_ptr <$> hs -> p ≠ 0 ∧ scopes st !! p = None).
Proof.
  induction args as [|[[a v] r] args IH]; intros st hs st1 H.
  - cbn in H. unfold ret in H. injection H as <- <-. split; [done|].
    intros p Hp. by apply elem_of_nil in Hp.
  - cbn [open_nested] in H. unfold bind at 1 in H.
    destruct (open_scope a v r st) as [h st'| |] eqn:Hopen; try discriminate.
    unfold bind in H.
    destruct (open_nested args st') as [hs' st1'| |] eqn:Hrest; try discriminate.
    unfold ret in H. injection H as <- <-.
    apply open_scope_returned_inv in Hopen as (s & Hnz & Hfresh & Hsc).
    destruct (IH _ _ _ Hrest) as [Hout Hin]. split.
    + intros p Hp. cbn in Hp. apply not_elem_of_cons in Hp as [Hne Hp].
      rewrite (Hout p Hp), Hsc. by rewrite lookup_insert_ne.
    + intros p Hp. cbn in Hp. apply elem_of_cons in Hp as [->|Hp]; [done|].
      destruct (Hin p Hp) as [Hpz Hnone]. split; [done|].
      rewrite Hsc in Hnone. by apply lookup_insert_None in Hnone as [? _].
Qed.

Lemma close_all_others hs :
  ∀ st1 st2,
    close_all hs st1 = Returned tt st2 ->
    ∀ p, p ∉ extras_callback_scope_ptr <$> hs -> scopes st2 !! p = scopes st1 !! p.
Proof.
  induction hs as [|h hs IH]; intros st1 st2 H p Hp.
  - cbn in H. unfold ret in H. by injection H as <-.
  - cbn [close_all] in H. unfold bind in H.
    destruct (extras_close_callback_scope h st1) as [[] st'| |] eqn:Hc;
      try discriminate.
    cbn in Hp. apply not_elem_of_cons in Hp as [Hne Hp].
    rewrite (IH _ _ H p Hp).
    apply close_returned_inv in Hc as [[_ ->]|(_ & s & _ & ->)]; [done|].
    cbn. by rewrite lookup_delete_ne.
Qed.

Lemma close_all_closed hs :
  ∀ st1 st2,
    close_all hs st1 = Returned tt st2 ->
    ∀ p, p ≠ 0 -> p ∈ extras_callback_scope_ptr <$> hs -> scopes st2 !! p = None.
Proof.
  induction hs as [|h hs IH]; intros st1 st2 H p Hnz Hp.
  - by apply elem_of_nil in Hp.
  - cbn [close_all] in H. unfold bind in H.
    destruct (extras_close_callback_scope h st1) as [[] st'| |] eqn:Hc;
      try discriminate.
    destruct (decide (p ∈ extras_callback_scope_ptr <$> hs)) as [Hin|Hnotin].
    + by apply (IH _ _ H).
    + rewrite (close_all_others _ _ _ H p Hnotin).
      cbn in Hp. apply elem_of_cons in Hp as [->|Hp]; [|done].
      apply close_returned_inv in Hc as [[Hz _]|(_ & s & _ & ->)]; [done|].
      cbn. apply lookup_delete_eq.
Qed.

(** X8.  No scope is leaked by nesting: when a sequence of opens has returned
    its handles and the closes of those handles in reverse order have
    returned, the live scopes are exactly those from before the first open,
    whatever the resources were. *)
Theorem nested_open_close_releases_all args st hs st1 st2 :
  open_nested args st = Returned hs st1 ->
  close_all (reverse hs) st1 = Returned tt st2 ->
  scopes st2 = scopes st.
Proof.
  intros Hopen Hclose.
  destruct (open_nested_handles _ _ _ _ Hopen) as [Hout Hin].
  apply map_eq. intros p.
  destruct (decide (p ∈ extras_callback_scope_ptr <$> hs)) as [Hp|Hp].
  - destruct (Hin p Hp) as [Hnz Hnone]. rewrite Hnone.
    apply (close_all_closed _ _ _ Hclose); [done|].
    rewrite fmap_reverse. by apply elem_of_reverse.
  - rewrite <- (Hout p Hp).
    apply (close_all_others _ _ _ Hclose).
    rewrite fmap_reverse. by rewrite elem_of_reverse.
Qed.

Lemma nested_open_close_releases_all_witness :
  scopes
    (close_post
       (close_post
          (open_post Example.st1 (V8LocalValueFromJsValue Example.R1)
             {| async_id := 6; trigger_async_id := 5 |} Example.slot2)
          2 (scope_made Example.st1 (V8LocalValueFromJsValue Example.R1)
               {| async_id := 6; trigger_async_id := 5 |}))
       1 (scope_made Example.st0 (V8LocalValueFromJsValue Example.R1)
            {| async_id := 5; trigger_async_id := 1 |}))
  = scopes Example.st0.
Proof.
  apply (nested_open_close_releases_all
           [(Example.A1, Example.R1, Example.slot1);
            (Example.A2, Example.R1, Example.slot2)]
           Example.st0
           [Example.S1; {| extras_callback_scope_ptr := 2 |}]
           (open_post Example.st1 (V8LocalValueFromJsValue Example.R1)
              {| async_id := 6; trigger_async_id := 5 |} Example.slot2)).
  - vm_compute. reflexivity.
  - vm_compute. reflexivity.
Defined.
